(** * The ETL project of Health_Situation_in_Morocco, embedded in Rocq

    The authored code is three files:
    - [etl/ops/etl.py]: the ops [extract_dim_product_category] and
      [load_dim_product_category];
    - [etl/jobs/run_etl.py]: the job [etl];
    - [etl/schedules/etl_job_schedule.py]: the schedule [etl_job_schedule].

    Python strings are modelled as [string]; a non-ASCII character is the
    sequence of its UTF-8 bytes, as in the source file.  An op is a
    computation in a state-and-exception monad over a [world] that holds what
    the op can touch: the tables of the SQL Server database, the set of open
    database connections, and the trace of what the op did (log records,
    yielded outputs, library calls).  What the outside decides (the files on
    disk, whether a library call fails) is an [env].

    The calls into sqlalchemy and pandas may raise, as [env] says.  Each op
    is embedded twice: with its surroundings as a parameter (a [Context]: the
    logger may raise, the consumer of a generator may throw into it), and, under
    its own name, as the framework runs it, where logging returns and the
    executor only asks for the next output; the second is the first at
    [framework_context].  An exception is an instance of [Exception], the
    class both [except] clauses name. *)

From Stdlib Require Import DecimalString.
From stdpp Require Import base option list strings gmap sets sorting.

Open Scope string_scope.
Open Scope list_scope.

(** ** Values *)

(** An instance of Python's [Exception]: the class name and [str(e)]. *)
Record exn := Exn { exn_class : string; exn_str : string }.

#[global] Instance exn_eq_dec : EqDecision exn.
Proof. solve_decision. Defined.

(** A pandas dataframe: column labels and rows of cells. *)
Record DataFrame := mkDataFrame { columns : list string; rows : list (list string) }.

#[global] Instance DataFrame_eq_dec : EqDecision DataFrame.
Proof. solve_decision. Defined.

(** [dagster.Output(value, output_name)]. *)
Record Output := mkOutput { value : string; output_name : string }.

#[global] Instance Output_eq_dec : EqDecision Output.
Proof. solve_decision. Defined.

(** The [if_exists] argument of [DataFrame.to_sql]. *)
Inductive if_exists := IfFail | IfReplace | IfAppend.

#[global] Instance if_exists_eq_dec : EqDecision if_exists.
Proof. solve_decision. Defined.

(** A SQLAlchemy engine is its URL; a connection is an identifier. *)
Record Engine := mkEngine { engine_url : string }.
Record Connection := mkConnection { conn_id : nat }.

(** What an op does that the outside can see: the records it logs, the
    outputs it yields and the library calls it makes (a call is recorded when
    it is made, whether it returns or raises). *)
Inductive event :=
| EvLogInfo (msg : string)
| EvLogError (msg : string)
| EvYield (o : Output)
| EvCreateEngine (url : string)
| EvConnect (url : string)
| EvReadCsv (path encoding : string)
| EvToSql (table : string) (df : DataFrame) (url : string) (mode : if_exists) (index : bool)
| EvClose (c : nat).

#[global] Instance event_eq_dec : EqDecision event.
Proof. solve_decision. Defined.

(** ** The world and the environment *)

Record world := mkWorld {
  tables : gmap string DataFrame;   (* the database: table name to contents *)
  open_conns : gset nat;            (* connections taken and not yet given back *)
  next_conn : nat;                  (* identifier of the next connection taken *)
  trace : list event                (* what happened so far, oldest first *)
}.

(** The result of a call that may raise. *)
Inductive outcome (A : Type) :=
| Ok (a : A)
| Raised (e : exn).
Arguments Ok {A} a.
Arguments Raised {A} e.

(** The pandas module, as far as the project can reach it: [read_csv] and
    [read_sql] are decided by the files and the server outside. *)
Record pandas := mkPandas {
  pd_read_csv : string -> string -> outcome DataFrame;   (* path, encoding *)
  pd_read_sql : string -> string -> outcome DataFrame    (* sql, engine url *)
}.

(** What the outside decides.  For a [to_sql] call that raises it also says
    what the call had done by then: whether it had taken a connection from
    the engine, and what it leaves of the table, given what the table held
    (under [if_exists='replace'] the old table may already be dropped). *)
Record env := mkEnv {
  pd : pandas;
  create_engine_error : string -> option exn;            (* by URL *)
  connect_error : string -> option exn;                  (* by engine URL *)
  to_sql_error : string -> DataFrame -> option exn;      (* by table, data *)
  to_sql_failed_connected : string -> DataFrame -> bool;
  to_sql_failed_leaves : string -> DataFrame -> option DataFrame -> option DataFrame;
  close_error : nat -> option exn                        (* by connection *)
}.

(** ** The monad of ops: state and exceptions *)

Definition M (A : Type) : Type := world -> outcome A * world.

#[global] Instance M_ret : MRet M := fun A (a : A) w => (Ok a, w).

#[global] Instance M_bind : MBind M := fun A B (f : A -> M B) (m : M A) w =>
  match m w with
  | (Ok a, w') => f a w'
  | (Raised e, w') => (Raised e, w')
  end.

(** [raise e]. *)
Definition raise {A} (e : exn) : M A := fun w => (Raised e, w).

(** [try: body except Exception as e: handler e]. *)
Definition try_except {A} (body : M A) (handler : exn -> M A) : M A := fun w =>
  match body w with
  | (Ok a, w') => (Ok a, w')
  | (Raised e, w') => handler e w'
  end.

(** The world after more events. *)
Definition add_events (w : world) (evs : list event) : world :=
  mkWorld (tables w) (open_conns w) (next_conn w) (trace w ++ evs).

Definition emit (ev : event) : M unit := fun w => (Ok tt, add_events w [ev]).

(** [context.log.info(msg)] and [context.log.error(msg)]: the framework's log
    manager records the message and returns. *)
Definition log_info (msg : string) : M unit := emit (EvLogInfo msg).
Definition log_error (msg : string) : M unit := emit (EvLogError msg).

(** [yield Output(value, name)] in an op that is a generator. *)
Definition yield (o : Output) : M unit := emit (EvYield o).

(** [for x in l: body x]. *)
Fixpoint for_each {A} (l : list A) (body : A -> M unit) : M unit :=
  match l with
  | [] => mret tt
  | x :: l' => body x ;; for_each l' body
  end.

(** [enumerate(l, start)]. *)
Fixpoint enumerate {A} (start : nat) (l : list A) : list (nat * A) :=
  match l with
  | [] => []
  | x :: l' => (start, x) :: enumerate (S start) l'
  end.

(** [str(i)] of a natural number, as an f-string formats it. *)
Definition str_of_nat (n : nat) : string := NilEmpty.string_of_uint (Nat.to_uint n).

(** ** The library calls of the load op *)

Section Libraries.
Variable E : env.   (* what the outside decides *)

(** [sqlalchemy.create_engine(url)]. *)
Definition create_engine (url : string) : M Engine :=
  emit (EvCreateEngine url) ;;
  match create_engine_error E url with
  | Some e => raise e
  | None => mret (mkEngine url)
  end.

(** [engine.connect()]: a new connection, open from now on; a call that
    raises opens nothing. *)
Definition engine_connect (engine : Engine) : M Connection := fun w =>
  let c := next_conn w in
  let w1 := add_events w [EvConnect (engine_url engine)] in
  match connect_error E (engine_url engine) with
  | Some e => (Raised e, w1)
  | None => (Ok (mkConnection c), mkWorld (tables w) ({[c]} ∪ open_conns w) (S c) (trace w1))
  end.

(** [conn.close()]: the connection is open no more; a call that raises
    leaves it as it was. *)
Definition conn_close (conn : Connection) : M unit := fun w =>
  let c := conn_id conn in
  let w1 := add_events w [EvClose c] in
  match close_error E c with
  | Some e => (Raised e, w1)
  | None => (Ok tt, mkWorld (tables w) (open_conns w ∖ {[c]}) (next_conn w) (trace w1))
  end.

(** [pd.read_csv(path, encoding=encoding)]. *)
Definition read_csv (path encoding : string) : M DataFrame :=
  emit (EvReadCsv path encoding) ;;
  match pd_read_csv (pd E) path encoding with
  | Ok df => mret df
  | Raised e => raise e
  end.

(** The dataframe with its index written as a first column, which is what
    [to_sql] stores under [index=True]. *)
Definition with_index (df : DataFrame) : DataFrame :=
  mkDataFrame ("index" :: columns df) (imap (fun i r => str_of_nat i :: r) (rows df)).

(** [df.to_sql(name, con=engine, if_exists=mode, index=index)], after the
    pandas documentation: [fail] raises a [ValueError] when the table exists,
    [replace] drops the table before inserting, [append] inserts the rows
    after the existing ones.  Given an engine, the call takes a connection of
    its own from it and gives it back before it ends, so the counter moves
    and the open set does not.  A call that raises leaves of the table what
    [env] says. *)
Definition to_sql (df : DataFrame) (name : string) (engine : Engine)
    (mode : if_exists) (index : bool) : M unit := fun w =>
  let tr := trace w ++ [EvToSql name df (engine_url engine) mode index] in
  let data := if index then with_index df else df in
  let store (t : DataFrame) :=
    (Ok tt, mkWorld (<[name := t]> (tables w)) (open_conns w) (S (next_conn w)) tr) in
  match to_sql_error E name df with
  | Some e =>
      (Raised e,
       mkWorld (partial_alter (to_sql_failed_leaves E name df) name (tables w))
         (open_conns w)
         (if to_sql_failed_connected E name df then S (next_conn w) else next_conn w)
         tr)
  | None =>
      match mode, tables w !! name with
      | IfFail, Some _ =>
          (Raised (Exn "ValueError" ("Table '" +:+ name +:+ "' already exists.")),
           mkWorld (tables w) (open_conns w) (S (next_conn w)) tr)
      | IfAppend, Some old => store (mkDataFrame (columns old) (rows old ++ rows data))
      | _, _ => store data
      end
  end.

End Libraries.

(** ** [etl/ops/etl.py] *)

(** The [out=] dictionary of the [@op] decorator of
    [extract_dim_product_category], in its order. *)
Definition extract_outs : list string :=
  [ "file_path_1"; "table_name_1";
    "file_path_2"; "table_name_2";
    "file_path_3"; "table_name_3";
    "file_path_4"; "table_name_4";
    "file_path_5"; "table_name_5";
    "file_path_6"; "table_name_6";
    "file_path_7"; "table_name_7";
    "file_path_8"; "table_name_8";
    "file_path_9"; "table_name_9";
    "file_path_10"; "table_name_10";
    "file_path_11"; "table_name_11" ].

(** The list literal of the op, each Python string literal evaluated: [\\] is
    one backslash, [\'] a quote, and [\E] (no escape sequence) stays a
    backslash and an [E], so the third path has two backslashes after
    [data]. *)
Definition files_to_load : list (string * string) :=
  [ ("C:\Users\hp\Desktop\health\data\Suicide deaths.csv", "Suicide_deaths");
    ("C:\Users\hp\Desktop\health\data\calcule.csv", "calcule");
    ("C:\Users\hp\Desktop\health\data\\Effectif des assurés actifs par Tranche d'âge.csv", "Effectif_des_assures_actifs");
    ("C:\Users\hp\Desktop\health\data\Health in Morocco_wikipedia.csv", "Health_in_Morocco_wikipedia");
    ("C:\Users\hp\Desktop\health\data\Indicateurs sur les déclarations de salaires CNSS effectuées au titre de l'année 2020 ( cnss).csv", "Indicateurs_sur_les_declarations");
    ("C:\Users\hp\Desktop\health\data\indicateur-sur-la-repartition-des-affilies-par-region.csv", "indicateur_sur_la_repartition_des_affilies");
    ("C:\Users\hp\Desktop\health\data\indicateur-sur-la-repartition-des-affilies-par-secteur-dactivite cnss.csv", "indicateur_sur_la_repartition_des_secteur");
    ("C:\Users\hp\Desktop\health\data\indic-soc-sante-mef-2014-3 MEF.csv", "indic_soc_sante_mef_2014_3_MEF");
    ("C:\Users\hp\Desktop\health\data\infrastructures-privees-2022.csv", "infrastructures_privees");
    ("C:\Users\hp\Desktop\health\data\offre-de-soins-privees-ms-2013.csv", "offre_de_soins_privees_ms_2013");
    ("C:\Users\hp\Desktop\health\data\stastique.csv", "stastique") ].

(** The f-strings of the extract op. *)
Definition extract_info_msg (file_path table_name : string) : string :=
  "Chargement des données à partir de " +:+ file_path
  +:+ " pour la table " +:+ table_name.
Definition extract_error_msg (e : exn) : string :=
  "Erreur lors de l'extraction des données : " +:+ exn_str e.

(** The body of the [for] loop of [extract_dim_product_category]. *)
Definition extract_step '((i, (file_path, table_name)) : nat * (string * string)) : M unit :=
  log_info (extract_info_msg file_path table_name) ;;
  yield (mkOutput file_path ("file_path_" +:+ str_of_nat i)) ;;
  yield (mkOutput table_name ("table_name_" +:+ str_of_nat i)).

(** The body of the [try] of [extract_dim_product_category]. *)
Definition extract_body : M unit :=
  for_each (enumerate 1 files_to_load) extract_step.

Definition extract_handler (e : exn) : M unit :=
  log_error (extract_error_msg e) ;;
  raise e.

Definition extract_dim_product_category : M unit :=
  try_except extract_body extract_handler.

Definition server_name : string := "DESKTOP-EOHPBP3\PROJECT".
Definition database_name : string := "health".
Definition connection_string : string :=
  "mssql+pyodbc://" +:+ server_name +:+ "/" +:+ database_name
  +:+ "?trusted_connection=yes&driver=ODBC+Driver+17+for+SQL+Server".

(** The f-strings of the load op. *)
Definition load_info_msg (table_name : string) : string :=
  "Les données ont été importées avec succès dans la table " +:+ table_name +:+ ".".
Definition load_error_msg (e : exn) : string :=
  "Erreur lors du chargement des données dans SQL Server : " +:+ exn_str e.

(** The body of the [try] of [load_dim_product_category]. *)
Definition load_body (E : env) (file_path table_name : string) : M unit :=
  engine ← create_engine E connection_string ;
  conn ← engine_connect E engine ;
  df ← read_csv E file_path "utf-8-sig" ;
  to_sql E df table_name engine IfReplace false ;;
  log_info (load_info_msg table_name) ;;
  conn_close E conn.

Definition load_handler (e : exn) : M unit :=
  log_error (load_error_msg e) ;;
  raise e.

Definition load_dim_product_category (E : env) (file_path table_name : string) : M unit :=
  try_except (load_body E file_path table_name) load_handler.

(** *** The ops in any surroundings *)

(** What surrounds an op and the op cannot see into: the logger of the
    [context] it is given, whose calls may raise, and, for an op that is a
    generator, its consumer, which may throw an exception into it where it
    yields ([generator.throw]). *)
Record Context := mkContext {
  log_info_raises : string -> option exn;     (* [context.log.info(msg)] *)
  log_error_raises : string -> option exn;    (* [context.log.error(msg)] *)
  thrown_at_yield : Output -> option exn      (* at [yield Output(...)] *)
}.

(** A call that the outside may make raise, recorded when it is made. *)
Definition call (ev : event) (raises : option exn) : M unit :=
  emit ev ;;
  match raises with
  | Some e => raise e
  | None => mret tt
  end.

Definition log_info_in (ctx : Context) (msg : string) : M unit :=
  call (EvLogInfo msg) (log_info_raises ctx msg).
Definition log_error_in (ctx : Context) (msg : string) : M unit :=
  call (EvLogError msg) (log_error_raises ctx msg).
Definition yield_in (ctx : Context) (o : Output) : M unit :=
  call (EvYield o) (thrown_at_yield ctx o).

Definition extract_step_in (ctx : Context)
    '((i, (file_path, table_name)) : nat * (string * string)) : M unit :=
  log_info_in ctx (extract_info_msg file_path table_name) ;;
  yield_in ctx (mkOutput file_path ("file_path_" +:+ str_of_nat i)) ;;
  yield_in ctx (mkOutput table_name ("table_name_" +:+ str_of_nat i)).

Definition extract_body_in (ctx : Context) : M unit :=
  for_each (enumerate 1 files_to_load) (extract_step_in ctx).

Definition extract_handler_in (ctx : Context) (e : exn) : M unit :=
  log_error_in ctx (extract_error_msg e) ;;
  raise e.

(** [extract_dim_product_category(context)]. *)
Definition extract_dim_product_category_in (ctx : Context) : M unit :=
  try_except (extract_body_in ctx) (extract_handler_in ctx).

Definition load_body_in (ctx : Context) (E : env) (file_path table_name : string) : M unit :=
  engine ← create_engine E connection_string ;
  conn ← engine_connect E engine ;
  df ← read_csv E file_path "utf-8-sig" ;
  to_sql E df table_name engine IfReplace false ;;
  log_info_in ctx (load_info_msg table_name) ;;
  conn_close E conn.

Definition load_handler_in (ctx : Context) (e : exn) : M unit :=
  log_error_in ctx (load_error_msg e) ;;
  raise e.

(** [load_dim_product_category(context, file_path, table_name)]. *)
Definition load_dim_product_category_in (ctx : Context) (E : env)
    (file_path table_name : string) : M unit :=
  try_except (load_body_in ctx E file_path table_name) (load_handler_in ctx).

(** The surroundings the framework gives: the logger records and returns,
    the executor asks for the next output and throws nothing. *)
Definition framework_context : Context :=
  mkContext (fun _ => None) (fun _ => None) (fun _ => None).

(** ** [etl/jobs/run_etl.py] *)

(** Inside [@job], calling an op adds a node to the graph and returns handles
    on its outputs; an op with several outputs returns them as a tuple in the
    order of its [out=] dictionary. *)
Record OutputHandle := mkHandle { handle_node : string; handle_output : string }.

#[global] Instance OutputHandle_eq_dec : EqDecision OutputHandle.
Proof. solve_decision. Defined.

(** An invocation of an op in the graph, with the handles bound to its
    positional arguments. *)
Record Node := mkNode { node_op : string; node_args : list OutputHandle }.

#[global] Instance Node_eq_dec : EqDecision Node.
Proof. solve_decision. Defined.

(** [extract_dim_product_category()] in the body of the job. *)
Definition invoke_extract : Node * list OutputHandle :=
  (mkNode "extract_dim_product_category" [],
   map (mkHandle "extract_dim_product_category") extract_outs).

(** [load_dim_product_category(results[i], results[j])] in the body of the
    job; an index out of range raises, which is [None] here. *)
Definition invoke_load (results : list OutputHandle) (i j : nat) : option Node :=
  file_path ← results !! i ;
  table_name ← results !! j ;
  Some (mkNode "load_dim_product_category" [file_path; table_name]).

(** The job [etl]: its nodes in the order the body creates them. *)
Definition etl : option (list Node) :=
  let '(extract_node, extract_results) := invoke_extract in
  l1 ← invoke_load extract_results 0 1 ;
  l2 ← invoke_load extract_results 2 3 ;
  l3 ← invoke_load extract_results 4 5 ;
  l4 ← invoke_load extract_results 6 7 ;
  l5 ← invoke_load extract_results 8 9 ;
  l6 ← invoke_load extract_results 10 11 ;
  l7 ← invoke_load extract_results 12 13 ;
  l8 ← invoke_load extract_results 14 15 ;
  l9 ← invoke_load extract_results 16 17 ;
  l10 ← invoke_load extract_results 18 19 ;
  l11 ← invoke_load extract_results 20 21 ;
  Some [extract_node; l1; l2; l3; l4; l5; l6; l7; l8; l9; l10; l11].

(** *** Running the job *)

(** The outputs yielded in a trace, in order. *)
Definition yielded (tr : list event) : list Output :=
  omap (fun ev => match ev with EvYield o => Some o | _ => None end) tr.

(** The value an op yielded under an output name. *)
Definition output_value (outs : list Output) (name : string) : option string :=
  value <$> find (fun o => bool_decide (output_name o = name)) outs.

(** The arguments a load node receives: the values behind its two handles. *)
Definition node_inputs (outs : list Output) (n : Node) : option (string * string) :=
  match node_args n with
  | [h1; h2] =>
      file_path ← output_value outs (handle_output h1) ;
      table_name ← output_value outs (handle_output h2) ;
      Some (file_path, table_name)
  | _ => None
  end.

(** The nodes of a graph that invoke a given op. *)
Definition nodes_of (op : string) (nodes : list Node) : list Node :=
  filter (fun n => node_op n = op) nodes.

(** The events an op adds to the trace when it runs from [w]. *)
Definition events_of {A} (m : M A) (w : world) : list event :=
  drop (length (trace w)) (trace (m w).2).

(** The arguments of the load calls of a run of the job, in the order of the
    nodes: the extract op runs first and each load node reads its inputs from
    what the extract op yielded. *)
Definition load_calls (w : world) : option (list (string * string)) :=
  nodes ← etl ;
  mapM (node_inputs (yielded (events_of extract_dim_product_category w)))
       (nodes_of "load_dim_product_category" nodes).

(** The steps of a run, in order.  A step that raises fails the run;
    [carry_on] says whether the executor still runs the steps after it, which
    here never depend on it. *)
Fixpoint run_steps (carry_on : bool) (steps : list (M unit)) : M unit := fun w =>
  match steps with
  | [] => (Ok tt, w)
  | step :: steps' =>
      match step w with
      | (Ok _, w1) => run_steps carry_on steps' w1
      | (Raised e, w1) =>
          (Raised e, if carry_on then (run_steps carry_on steps' w1).2 else w1)
      end
  end.

Definition run_loads (carry_on : bool) (E : env) (calls : list (string * string)) : M unit :=
  run_steps carry_on
    (map (fun '(file_path, table_name) =>
            load_dim_product_category E file_path table_name) calls).

(** The step key of the invocation number [k] of an op in a graph, counted
    from 1: the name of the op, with [_k] appended from the second on. *)
Definition step_key (op : string) (k : nat) : string :=
  if bool_decide (k = 1) then op else op +:+ "_" +:+ str_of_nat k.

(** The executor takes the steps that are ready in the order of their keys,
    as strings: the first load, then the tenth and the eleventh, then the
    second to the ninth. *)
Definition key_le {A} (a b : string * A) : Prop := String.leb a.1 b.1 = true.

#[global] Instance key_le_dec {A} : RelDecision (@key_le A).
Proof. intros a b. unfold key_le. apply _. Defined.

Definition in_step_order {A} (op : string) (calls : list A) : list A :=
  (merge_sort key_le (imap (fun i c => (step_key op (S i), c)) calls)).*2.

(** A run of the job: the extract op, on which every load depends, then the
    load op on each pair, in step order. *)
Definition run_etl (carry_on : bool) (E : env) : M unit := fun w =>
  match load_calls w with
  | Some calls =>
      match extract_dim_product_category w with
      | (Ok _, w1) =>
          run_loads carry_on E (in_step_order "load_dim_product_category" calls) w1
      | (Raised e, w1) => (Raised e, w1)
      end
  | None => (Raised (Exn "DagsterInvalidDefinitionError" "etl"), w)
  end.

(** ** [etl/schedules/etl_job_schedule.py] *)

(** What [@schedule] builds: the cron string, the job, the timezone, and the
    decorated function from the tick's context to a run config. *)
Record ScheduleDefinition (context : Type) := mkSchedule {
  cron_schedule : string;
  job : option (list Node);
  execution_timezone : option string;
  run_config_fn : context -> gmap string string
}.
Arguments cron_schedule {context}.
Arguments job {context}.
Arguments execution_timezone {context}.
Arguments run_config_fn {context}.

Definition etl_job_schedule {context : Type} : ScheduleDefinition context :=
  mkSchedule context "0 10 * * *" etl (Some "US/Central") (fun _context => ∅).

(** *** The cron string *)

(** A minute of wall-clock time in the schedule's timezone, by the five
    fields a cron string constrains. *)
Record CronTime := mkCronTime {
  minute : nat; hour : nat; day_of_month : nat; month : nat; day_of_week : nat
}.

(** A cron field, for the two forms the schedule uses: [*] and a number. *)
Inductive cron_field := Any | Exactly (n : nat).

Fixpoint split_on (sep : Ascii.ascii) (s : string) : list string :=
  match s with
  | EmptyString => [EmptyString]
  | String c s' =>
      if Ascii.eqb c sep then EmptyString :: split_on sep s'
      else match split_on sep s' with
           | [] => [String c EmptyString]
           | f :: fs => String c f :: fs
           end
  end.

Definition parse_field (s : string) : option cron_field :=
  if bool_decide (s = "*") then Some Any
  else (fun u => Exactly (Nat.of_uint u)) <$> NilEmpty.uint_of_string s.

Definition field_matches (f : cron_field) (n : nat) : bool :=
  match f with
  | Any => true
  | Exactly m => bool_decide (n = m)
  end.

(** Whether a cron string of the fields minute, hour, day of month, month
    and day of week fires at a minute; [None] when the string is not of the
    forms above. *)
Definition cron_fires (cron : string) (t : CronTime) : option bool :=
  match split_on (Ascii.ascii_of_nat 32) cron with
  | [mi; ho; dm; mo; dw] =>
      fmi ← parse_field mi ;
      fho ← parse_field ho ;
      fdm ← parse_field dm ;
      fmo ← parse_field mo ;
      fdw ← parse_field dw ;
      Some (field_matches fmi (minute t) && field_matches fho (hour t)
            && field_matches fdm (day_of_month t) && field_matches fmo (month t)
            && field_matches fdw (day_of_week t))
  | _ => None
  end.

(** ** What the statements below speak of *)

(** The outputs of the extract op as the specification words them: for the
    pair number [i], the file path under [file_path_i], then the table name
    under [table_name_i]. *)
Fixpoint outputs_in_order (i : nat) (pairs : list (string * string)) : list Output :=
  match pairs with
  | [] => []
  | (file_path, table_name) :: pairs' =>
      mkOutput file_path ("file_path_" +:+ str_of_nat i)
      :: mkOutput table_name ("table_name_" +:+ str_of_nat i)
      :: outputs_in_order (S i) pairs'
  end.

(** The wiring as the specification words it: the load call number [i]
    takes the outputs [file_path_i] and [table_name_i] of the extract op. *)
Definition wired_pair (i : nat) : list OutputHandle :=
  [ mkHandle "extract_dim_product_category" ("file_path_" +:+ str_of_nat i);
    mkHandle "extract_dim_product_category" ("table_name_" +:+ str_of_nat i) ].

(** The events of one turn of the loop of the extract op, and of the loop. *)
Definition pair_events (i : nat) (p : string * string) : list event :=
  [ EvLogInfo (extract_info_msg p.1 p.2);
    EvYield (mkOutput p.1 ("file_path_" +:+ str_of_nat i));
    EvYield (mkOutput p.2 ("table_name_" +:+ str_of_nat i)) ].

Fixpoint extract_events (i : nat) (pairs : list (string * string)) : list event :=
  match pairs with
  | [] => []
  | p :: pairs' => pair_events i p ++ extract_events (S i) pairs'
  end.

(** The error records in a trace. *)
Definition logged_errors (tr : list event) : list string :=
  omap (fun ev => match ev with EvLogError msg => Some msg | _ => None end) tr.

(** The paths read and the tables written in a trace. *)
Definition read_paths (tr : list event) : list string :=
  omap (fun ev => match ev with EvReadCsv path _ => Some path | _ => None end) tr.
Definition written_tables (tr : list event) : list string :=
  omap (fun ev => match ev with EvToSql table _ _ _ _ => Some table | _ => None end) tr.

(** The [to_sql] calls of a trace, with their arguments. *)
Definition to_sql_calls (tr : list event) : list event :=
  omap (fun ev => match ev with EvToSql _ _ _ _ _ => Some ev | _ => None end) tr.

(** The database URLs a trace names. *)
Definition database_urls (tr : list event) : list string :=
  omap (fun ev => match ev with
                  | EvCreateEngine url | EvConnect url | EvToSql _ _ url _ _ => Some url
                  | _ => None
                  end) tr.

(** The library calls of a trace, by name. *)
Definition library_calls (tr : list event) : list string :=
  omap (fun ev => match ev with
                  | EvCreateEngine _ => Some "create_engine"
                  | EvConnect _ => Some "connect"
                  | EvReadCsv _ _ => Some "read_csv"
                  | EvToSql _ _ _ _ _ => Some "to_sql"
                  | EvClose _ => Some "close"
                  | _ => None
                  end) tr.

(** The library calls of the load op, in program order. *)
Definition load_library_calls : list string :=
  ["create_engine"; "connect"; "read_csv"; "to_sql"; "close"].

(** The first claim as the specification words it: what [to_sql] writes
    is what [pandas.read_sql] returns on the file path. *)
Definition written_data_from_read_sql (E : env) (file_path table_name : string)
    (w : world) : Prop :=
  forall table df url mode index,
    EvToSql table df url mode index
      ∈ events_of (load_dim_product_category E file_path table_name) w ->
    exists con, pd_read_sql (pd E) file_path con = Ok df.

(** The connections a run opened: the identifiers handed out during it. *)
Definition opened_during (w w' : world) : list nat :=
  seq (next_conn w) (next_conn w' - next_conn w).

(** *** Sample worlds and environments *)

Definition empty_world : world := mkWorld ∅ ∅ 0 [].

(** The second pair of the list. *)
Definition calcule_csv : string := "C:\Users\hp\Desktop\health\data\calcule.csv".

Definition sample_df : DataFrame :=
  mkDataFrame ["Year"; "Deaths"] [["2019"; "2617"]; ["2020"; "2500"]].
Definition stale_df : DataFrame :=
  mkDataFrame ["Old"] [["1"]; ["2"]; ["3"]].

(** A world whose database already holds the table [calcule]. *)
Definition stale_world : world :=
  mkWorld {[ "calcule" := stale_df ]} ∅ 0 [].

(** Every file is there and parses to [sample_df]; [read_sql], given a file
    path for a query, is refused by the server; no call fails otherwise. *)
Definition env_ok : env :=
  mkEnv (mkPandas (fun _ _ => Ok sample_df)
                  (fun sql _ => Raised (Exn "DatabaseError" ("Execution failed on sql: " +:+ sql))))
        (fun _ => None) (fun _ => None) (fun _ _ => None)
        (fun _ _ => false) (fun _ _ old => old) (fun _ => None).

(** [repr(s)] of a string of printable characters: in single quotes, or in
    double quotes when the string holds a single quote and no double one;
    the backslash and the quote in use are escaped. *)
Definition backslash : Ascii.ascii := Ascii.ascii_of_nat 92.
Definition single_quote : Ascii.ascii := Ascii.ascii_of_nat 39.
Definition double_quote : Ascii.ascii := Ascii.ascii_of_nat 34.

Fixpoint has_char (c : Ascii.ascii) (s : string) : bool :=
  match s with
  | EmptyString => false
  | String d s' => Ascii.eqb c d || has_char c s'
  end.

Fixpoint repr_body (quote : Ascii.ascii) (s : string) : string :=
  match s with
  | EmptyString => EmptyString
  | String c s' =>
      if Ascii.eqb c backslash || Ascii.eqb c quote
      then String backslash (String c (repr_body quote s'))
      else String c (repr_body quote s')
  end.

Definition py_repr (s : string) : string :=
  let quote := if has_char single_quote s && negb (has_char double_quote s)
               then double_quote else single_quote in
  String quote (repr_body quote s) +:+ String quote EmptyString.

(** The files are not there: [read_csv] raises [FileNotFoundError], whose
    text shows the file name as [repr] does. *)
Definition missing_file (path : string) : exn :=
  Exn "FileNotFoundError" ("[Errno 2] No such file or directory: " +:+ py_repr path).

Definition env_missing_file : env :=
  mkEnv (mkPandas (fun path _ => Raised (missing_file path))
                  (fun sql _ => Raised (Exn "DatabaseError" ("Execution failed on sql: " +:+ sql))))
        (fun _ => None) (fun _ => None) (fun _ _ => None)
        (fun _ _ => false) (fun _ _ old => old) (fun _ => None).

(** *** More sample environments *)

(** Everything works until [conn.close()], which raises. *)
Definition close_failure : exn := Exn "OperationalError" "connection lost".

Definition env_close_fails : env :=
  mkEnv (mkPandas (fun _ _ => Ok sample_df)
                  (fun sql _ => Raised (Exn "DatabaseError" ("Execution failed on sql: " +:+ sql))))
        (fun _ => None) (fun _ => None) (fun _ _ => None)
        (fun _ _ => false) (fun _ _ old => old) (fun _ => Some close_failure).

(** A second file, for runs of two loads. *)
Definition stastique_csv : string := "C:\Users\hp\Desktop\health\data\stastique.csv".

(** ** [dagster/_core/storage/tags.py], with [invariant] of [dagster/_check] *)

Module Tags.

(** A Python [str] as the sequence of its code points, so that slicing and
    [startswith] count characters as Python does. *)
Definition pystr : Type := list N.

(** An ASCII literal. *)
Definition py (s : string) : pystr :=
  (fun c => Ascii.N_of_ascii c) <$> String.list_ascii_of_string s.

(** [s.startswith(p)]. *)
Fixpoint startswith (s p : pystr) {struct p} : bool :=
  match p, s with
  | [], _ => true
  | _ :: _, [] => false
  | c :: p', d :: s' => bool_decide (c = d) && startswith s' p'
  end.

Definition SYSTEM_TAG_PREFIX : pystr := py "dagster/".
Definition HIDDEN_TAG_PREFIX : pystr := py ".dagster/".

Definition PARTITION_NAME_TAG : pystr := SYSTEM_TAG_PREFIX ++ py "partition".
Definition MULTIDIMENSIONAL_PARTITION_PREFIX : pystr := PARTITION_NAME_TAG ++ py "/".

(** The two lambdas on partition tags. *)
Definition get_multidimensional_partition_tag (dimension_name : pystr) : pystr :=
  MULTIDIMENSIONAL_PARTITION_PREFIX ++ dimension_name.
Definition get_dimension_from_partition_tag (tag : pystr) : pystr :=
  drop (length MULTIDIMENSIONAL_PARTITION_PREFIX) tag.

Definition PRIORITY_TAG : pystr := SYSTEM_TAG_PREFIX ++ py "priority".
Definition MAX_RETRIES_TAG : pystr := SYSTEM_TAG_PREFIX ++ py "max_retries".
Definition RETRY_STRATEGY_TAG : pystr := SYSTEM_TAG_PREFIX ++ py "retry_strategy".
Definition RETRY_ON_ASSET_OR_OP_FAILURE_TAG : pystr :=
  SYSTEM_TAG_PREFIX ++ py "retry_on_asset_or_op_failure".
Definition MAX_RUNTIME_SECONDS_TAG : pystr := SYSTEM_TAG_PREFIX ++ py "max_runtime".
Definition RUN_ISOLATION_TAG : pystr := SYSTEM_TAG_PREFIX ++ py "isolation".

Definition USER_EDITABLE_SYSTEM_TAGS : list pystr :=
  [ PRIORITY_TAG; MAX_RETRIES_TAG; RETRY_STRATEGY_TAG; MAX_RUNTIME_SECONDS_TAG;
    RUN_ISOLATION_TAG; RETRY_ON_ASSET_OR_OP_FAILURE_TAG ].

Inductive TagType := USER_PROVIDED | SYSTEM | HIDDEN.

Definition get_tag_type (tag : pystr) : TagType :=
  if startswith tag SYSTEM_TAG_PREFIX then SYSTEM
  else if startswith tag HIDDEN_TAG_PREFIX then HIDDEN
  else USER_PROVIDED.

(** The exceptions of this module, with their message. *)
Inductive pyexn :=
| CheckError (msg : pystr)
| AttributeError (msg : pystr).

(** [check.invariant(condition, desc)]: an empty or missing description
    gives the short message. *)
Definition invariant (condition : bool) (desc : option pystr) : pyexn + bool :=
  if condition then inr true
  else match desc with
       | Some (c :: d) => inl (CheckError (py "Invariant failed. Description: " ++ c :: d))
       | _ => inl (CheckError (py "Invariant failed."))
       end.

(** The loop of [check_reserved_tags] over the keys of the dict. *)
Fixpoint check_reserved_keys (keys : list pystr) : pyexn + unit :=
  match keys with
  | [] => inr tt
  | tag :: keys' =>
      if bool_decide (tag ∉ USER_EDITABLE_SYSTEM_TAGS) then
        match invariant (negb (startswith tag SYSTEM_TAG_PREFIX))
                (Some (py "Attempted to set tag with reserved system prefix: " ++ tag)) with
        | inl e => inl e
        | inr _ => check_reserved_keys keys'
        end
      else check_reserved_keys keys'
  end.

(** [check_reserved_tags(tags)] for [tags] of its declared kind: [None], or
    a dict from [str] to [str], given by its items in insertion order.  On
    these [check.opt_dict_param] returns without raising, and what it returns
    is dropped: the loop calls [keys()] on [tags] itself, which [None] does
    not have. *)
Definition check_reserved_tags (tags : option (list (pystr * pystr))) : pyexn + unit :=
  match tags with
  | None => inl (AttributeError (py "'NoneType' object has no attribute 'keys'"))
  | Some items => check_reserved_keys items.*1
  end.

End Tags.

(** *** Two claims as the specification words them *)



(** *** Sample surroundings *)




(** ** Lemmas on the monad and the trace *)

Lemma add_events_nil w : add_events w [] = w.
Proof. destruct w; unfold add_events; simpl. by rewrite app_nil_r. Qed.

Lemma add_events_app w evs1 evs2 :
  add_events (add_events w evs1) evs2 = add_events w (evs1 ++ evs2).
Proof. unfold add_events; simpl. by rewrite app_assoc. Qed.

Lemma events_of_trace {A} (m : M A) w evs :
  trace (m w).2 = trace w ++ evs -> events_of m w = evs.
Proof. intros H. unfold events_of. rewrite H. apply drop_app_length. Qed.

Lemma extract_step_run i p w :
  extract_step (i, p) w = (Ok tt, add_events w (pair_events i p)).
Proof.
  destruct p as [file_path table_name]. unfold extract_step, pair_events.
  unfold log_info, yield, emit, mbind, M_bind. simpl.
  by rewrite !add_events_app.
Qed.

Lemma extract_loop_run pairs : forall i w,
  for_each (enumerate i pairs) extract_step w
  = (Ok tt, add_events w (extract_events i pairs)).
Proof.
  induction pairs as [|p pairs IH]; intros i w; cbn [for_each enumerate].
  - by rewrite add_events_nil.
  - unfold mbind, M_bind. rewrite extract_step_run, IH.
    by rewrite add_events_app.
Qed.

Lemma extract_body_run w :
  extract_body w = (Ok tt, add_events w (extract_events 1 files_to_load)).
Proof. apply extract_loop_run. Qed.

Lemma extract_run w :
  extract_dim_product_category w
  = (Ok tt, add_events w (extract_events 1 files_to_load)).
Proof. unfold extract_dim_product_category, try_except. by rewrite extract_body_run. Qed.

Lemma extract_events_of w :
  events_of extract_dim_product_category w = extract_events 1 files_to_load.
Proof. apply events_of_trace. by rewrite extract_run. Qed.

Lemma yielded_extract_events pairs : forall i,
  yielded (extract_events i pairs) = outputs_in_order i pairs.
Proof.
  induction pairs as [|[file_path table_name] pairs IH]; intros i; [done|].
  simpl. unfold yielded in *. simpl. by rewrite IH.
Qed.

(** ** The load op, case by case *)

Ltac world_simpl :=
  cbn [tables open_conns next_conn trace engine_url conn_id];
  rewrite <- ?app_assoc; cbn [app].

(** The run of the load op, by the first library call that raises. *)
Lemma load_run E file_path table_name w :
  let url := connection_string in
  let c := next_conn w in
  let opened := {[c]} ∪ open_conns w in
  load_dim_product_category E file_path table_name w =
  match create_engine_error E url with
  | Some e =>
      (Raised e, add_events w [EvCreateEngine url; EvLogError (load_error_msg e)])
  | None =>
    match connect_error E url with
    | Some e =>
        (Raised e,
         add_events w [EvCreateEngine url; EvConnect url; EvLogError (load_error_msg e)])
    | None =>
      match pd_read_csv (pd E) file_path "utf-8-sig" with
      | Raised e =>
          (Raised e,
           mkWorld (tables w) opened (S c)
             (trace w ++ [EvCreateEngine url; EvConnect url;
                          EvReadCsv file_path "utf-8-sig";
                          EvLogError (load_error_msg e)]))
      | Ok df =>
        match to_sql_error E table_name df with
        | Some e =>
            (Raised e,
             mkWorld (partial_alter (to_sql_failed_leaves E table_name df) table_name
                        (tables w))
               opened
               (if to_sql_failed_connected E table_name df then S (S c) else S c)
               (trace w ++ [EvCreateEngine url; EvConnect url;
                            EvReadCsv file_path "utf-8-sig";
                            EvToSql table_name df url IfReplace false;
                            EvLogError (load_error_msg e)]))
        | None =>
          match close_error E c with
          | Some e =>
              (Raised e,
               mkWorld (<[table_name := df]> (tables w)) opened (S (S c))
                 (trace w ++ [EvCreateEngine url; EvConnect url;
                              EvReadCsv file_path "utf-8-sig";
                              EvToSql table_name df url IfReplace false;
                              EvLogInfo (load_info_msg table_name);
                              EvClose c;
                              EvLogError (load_error_msg e)]))
          | None =>
              (Ok tt,
               mkWorld (<[table_name := df]> (tables w)) (opened ∖ {[c]}) (S (S c))
                 (trace w ++ [EvCreateEngine url; EvConnect url;
                              EvReadCsv file_path "utf-8-sig";
                              EvToSql table_name df url IfReplace false;
                              EvLogInfo (load_info_msg table_name);
                              EvClose c]))
          end
        end
      end
    end
  end.
Proof.
  cbv zeta.
  unfold load_dim_product_category, try_except, load_body, load_handler.
  unfold create_engine, engine_connect, read_csv, to_sql, conn_close.
  unfold log_info, log_error, emit, raise, mbind, M_bind, mret, M_ret, add_events.
  unfold load_error_msg, load_info_msg.
  destruct (create_engine_error E connection_string) as [e|]; [by world_simpl|].
  world_simpl.
  destruct (connect_error E connection_string) as [e|]; [by world_simpl|].
  world_simpl.
  destruct (pd_read_csv (pd E) file_path "utf-8-sig") as [df|e]; [|by world_simpl].
  world_simpl.
  destruct (to_sql_error E table_name df) as [e|]; [by world_simpl|].
  destruct (tables w !! table_name) as [old|];
    (world_simpl; destruct (close_error E (next_conn w)) as [e|]; by world_simpl).
Qed.

(** ** The extract op *)

(** The names in [outputs_in_order] mean what they say: the pair at index
    [k] of the list gives the outputs at indices [2k] and [2k+1], named after
    its number counted from [i]. *)
Lemma outputs_in_order_lookup pairs : forall i k file_path table_name,
  pairs !! k = Some (file_path, table_name) ->
  outputs_in_order i pairs !! (2 * k)
    = Some (mkOutput file_path ("file_path_" +:+ str_of_nat (i + k)))
  /\ outputs_in_order i pairs !! (2 * k + 1)
    = Some (mkOutput table_name ("table_name_" +:+ str_of_nat (i + k))).
Proof.
  induction pairs as [|[fp tn] pairs IH]; intros i k file_path table_name Hk; [done|].
  destruct k as [|k].
  - simpl in Hk. injection Hk as -> ->. rewrite Nat.add_0_r. done.
  - simpl in Hk. apply (IH (S i)) in Hk as [H1 H2].
    replace (2 * S k) with (S (S (2 * k))) by lia.
    replace (i + S k) with (S i + k) by lia. split; [exact H1|].
    replace (S (S (2 * k)) + 1) with (S (S (2 * k + 1))) by lia. exact H2.
Qed.

(** C2: the extract op holds exactly eleven pairs, each a path under the
    Windows data directory with a table name, and every run of it ends
    normally having yielded, for the pairs in list order, the file path under
    [file_path_i] and then the table name under [table_name_i]: 22 outputs,
    named as the decorator declares them. *)
Theorem extract_yields_all_pairs_in_order (w : world) :
  length files_to_load = 11
  /\ Forall (fun p => String.prefix "C:\Users\hp\Desktop\health\data\" p.1 = true)
            files_to_load
  /\ (extract_dim_product_category w).1 = Ok tt
  /\ yielded (events_of extract_dim_product_category w)
     = outputs_in_order 1 files_to_load
  /\ length (yielded (events_of extract_dim_product_category w)) = 22
  /\ map output_name (yielded (events_of extract_dim_product_category w))
     = extract_outs.
Proof.
  rewrite extract_events_of, extract_run, yielded_extract_events.
  split; [done|]. split; [by repeat constructor|]. done.
Qed.

(** ** The job *)

Lemma load_calls_run w : load_calls w = Some files_to_load.
Proof. unfold load_calls. rewrite extract_events_of. reflexivity. Qed.

(** C3: the job invokes the extract op once and the load op eleven times;
    the load call number [i] is bound to the outputs [file_path_i] and
    [table_name_i], and in a run the load calls receive the eleven pairs of
    the list, each once and in order. *)
Theorem etl_wires_eleven_pairs :
  exists nodes,
    etl = Some nodes
    /\ length (nodes_of "extract_dim_product_category" nodes) = 1
    /\ length (nodes_of "load_dim_product_category" nodes) = 11
    /\ length nodes = 12
    /\ map node_args (nodes_of "load_dim_product_category" nodes)
       = map wired_pair (seq 1 11)
    /\ forall w, load_calls w = Some files_to_load.
Proof.
  eexists. split; [reflexivity|]. repeat split. apply load_calls_run.
Qed.

(** ** What one call of the load op leaves in the trace *)

(** The events a call of the load op adds are bounded by its arguments: it
    reads no path but [file_path], at most once; writes no table but
    [table_name], at most once; names no database but [connection_string];
    and makes its library calls in program order, each at most once. *)
Lemma load_trace_extends E file_path table_name w :
  exists evs,
    trace (load_dim_product_category E file_path table_name w).2 = trace w ++ evs
    /\ read_paths evs `sublist_of` [file_path]
    /\ written_tables evs `sublist_of` [table_name]
    /\ Forall (fun url => url = connection_string) (database_urls evs)
    /\ library_calls evs `prefix_of` load_library_calls
    /\ (length (logged_errors evs) <= 1)%nat.
Proof.
  rewrite load_run.
  destruct (create_engine_error E connection_string) as [e|];
    [|destruct (connect_error E connection_string) as [e|];
      [|destruct (pd_read_csv (pd E) file_path "utf-8-sig") as [df|e];
        [destruct (to_sql_error E table_name df) as [e|];
          [|destruct (close_error E (next_conn w)) as [e|]]|]]];
    (eexists; split; [reflexivity|]);
    cbn; repeat split;
    try (by repeat constructor); try (by eexists); try lia;
    try apply sublist_nil_l.
Qed.

Lemma load_events_of E file_path table_name w evs :
  trace (load_dim_product_category E file_path table_name w).2 = trace w ++ evs ->
  events_of (load_dim_product_category E file_path table_name) w = evs.
Proof. apply events_of_trace. Qed.

(** ** A run of the job *)

Lemma run_loads_trace carry_on E calls : forall w,
  exists evs,
    trace (run_loads carry_on E calls w).2 = trace w ++ evs
    /\ read_paths evs `sublist_of` calls.*1
    /\ written_tables evs `sublist_of` calls.*2.
Proof.
  induction calls as [|[file_path table_name] calls IH]; intros w.
  - exists []. cbn. by rewrite app_nil_r.
  - unfold run_loads. cbn [map run_steps]. fold (run_loads carry_on E calls).
    destruct (load_trace_extends E file_path table_name w)
      as (evs1 & Htr & Hread & Hwrite & _).
    destruct (IH (load_dim_product_category E file_path table_name w).2)
      as (evs2 & Htr2 & Hread2 & Hwrite2).
    destruct (load_dim_product_category E file_path table_name w)
      as [[[]|e] w1]; cbn [snd] in Htr, Htr2; [|destruct carry_on]; cbn [snd].
    1,2: exists (evs1 ++ evs2); rewrite Htr2, Htr, app_assoc;
      unfold read_paths, written_tables in *; rewrite !omap_app;
      (split; [done|]); split;
      [by apply (sublist_app _ [file_path])|by apply (sublist_app _ [table_name])].
    exists evs1. split; [done|]. split.
    + by apply (sublist_inserts_r _ _ [file_path]).
    + by apply (sublist_inserts_r _ _ [table_name]).
Qed.

Lemma imap_with_key_snd {A K} (key : nat -> K) (l : list A) :
  (imap (fun i c => (key i, c)) l).*2 = l.
Proof.
  revert key. induction l as [|c l IH]; intros key; [done|].
  cbn. f_equal. apply (IH (fun i => key (S i))).
Qed.

(** The step order runs the same calls, each once. *)
Lemma in_step_order_Permutation {A} (op : string) (calls : list A) :
  in_step_order op calls ≡ₚ calls.
Proof.
  unfold in_step_order. rewrite merge_sort_Permutation.
  by rewrite (imap_with_key_snd (fun i => step_key op (S i))).
Qed.

Lemma run_etl_trace carry_on E w :
  exists evs order,
    events_of (run_etl carry_on E) w = extract_events 1 files_to_load ++ evs
    /\ order ≡ₚ files_to_load
    /\ read_paths evs `sublist_of` order.*1
    /\ written_tables evs `sublist_of` order.*2.
Proof.
  destruct (run_loads_trace carry_on E
              (in_step_order "load_dim_product_category" files_to_load)
              (add_events w (extract_events 1 files_to_load)))
    as (evs & Htr & Hread & Hwrite).
  exists evs, (in_step_order "load_dim_product_category" files_to_load).
  split; [|split; [apply in_step_order_Permutation|done]].
  apply events_of_trace. unfold run_etl. rewrite load_calls_run, extract_run.
  rewrite Htr. cbn [trace add_events]. by rewrite app_assoc.
Qed.

(** C9: the list pairs eleven distinct file paths with eleven distinct table
    names, and in a run of the job, whatever the library calls do, no file
    is read twice and no table is written twice, whether or not the run
    carries on after a failed load. *)
Theorem files_and_tables_pairwise_distinct :
  length files_to_load = 11
  /\ NoDup files_to_load.*1
  /\ NoDup files_to_load.*2
  /\ forall carry_on E w,
       load_calls w = Some files_to_load
       /\ NoDup (read_paths (events_of (run_etl carry_on E) w))
       /\ NoDup (written_tables (events_of (run_etl carry_on E) w)).
Proof.
  assert (Hpaths : NoDup files_to_load.*1)
    by (apply (bool_decide_unpack _); by vm_compute).
  assert (Htables : NoDup files_to_load.*2)
    by (apply (bool_decide_unpack _); by vm_compute).
  split; [done|]. split; [done|]. split; [done|].
  intros carry_on E w. split; [apply load_calls_run|].
  destruct (run_etl_trace carry_on E w) as (evs & order & -> & Hperm & Hread & Hwrite).
  unfold read_paths, written_tables in *. rewrite !omap_app.
  split.
  - eapply sublist_NoDup; [|exact Hread]. by rewrite Hperm.
  - eapply sublist_NoDup; [|exact Hwrite]. by rewrite Hperm.
Qed.

(** ** The load op *)

(** C1, as worded, fails: the op never calls [read_sql].  Where the file
    parses and [read_sql] refuses a file path, the table is written all the
    same. *)
Lemma load_data_not_from_read_sql :
  ~ written_data_from_read_sql env_ok calcule_csv "calcule" empty_world.
Proof.
  intros H.
  destruct (H "calcule" sample_df connection_string IfReplace false) as [con Hcon].
  - vm_compute. do 3 right. left.
  - discriminate Hcon.
Qed.

(** C1, amended: whatever a call of the load op writes, it writes with
    [to_sql] into the table it was given, and the data is what
    [pandas.read_csv] returned on the file path (encoding [utf-8-sig]),
    called just before. *)
Theorem load_writes_what_read_csv_returns E file_path table_name w
    table df url mode index :
  EvToSql table df url mode index
    ∈ events_of (load_dim_product_category E file_path table_name) w ->
  table = table_name
  /\ pd_read_csv (pd E) file_path "utf-8-sig" = Ok df
  /\ EvReadCsv file_path "utf-8-sig"
       ∈ events_of (load_dim_product_category E file_path table_name) w
  /\ read_paths (events_of (load_dim_product_category E file_path table_name) w)
     = [file_path].
Proof.
  unfold events_of. rewrite load_run.
  destruct (create_engine_error E connection_string) as [e|];
    [|destruct (connect_error E connection_string) as [e|];
      [|destruct (pd_read_csv (pd E) file_path "utf-8-sig") as [df'|e];
        [destruct (to_sql_error E table_name df') as [e|];
          [|destruct (close_error E (next_conn w)) as [e|]]|]]];
    cbn [snd trace add_events]; rewrite drop_app_length; intros Hin;
    repeat (apply elem_of_cons in Hin as [Hin|Hin]; [try discriminate Hin|]);
    try (by apply elem_of_nil in Hin);
    injection Hin as -> -> _ _ _; (split; [done|]); (split; [done|]);
    (split; [|done]); do 2 right; left.
Qed.

Lemma load_writes_what_read_csv_returns_witness :
  "calcule" = "calcule"
  /\ pd_read_csv (pd env_ok) calcule_csv "utf-8-sig" = Ok sample_df
  /\ EvReadCsv calcule_csv "utf-8-sig"
       ∈ events_of (load_dim_product_category env_ok calcule_csv "calcule") empty_world
  /\ read_paths (events_of (load_dim_product_category env_ok calcule_csv "calcule")
                   empty_world)
     = [calcule_csv].
Proof.
  apply (load_writes_what_read_csv_returns env_ok calcule_csv "calcule" empty_world
           "calcule" sample_df connection_string IfReplace false).
  apply (bool_decide_unpack _). vm_compute. reflexivity.
Defined.

(** C5: a load that ends normally leaves the named table holding exactly the
    dataframe read from the CSV, columns and rows with no index column added,
    whatever the database held before; the other tables are as they were.
    The write is the one [to_sql] call, with [if_exists='replace'] and
    [index=False]. *)
Theorem load_replaces_table E file_path table_name w w' :
  load_dim_product_category E file_path table_name w = (Ok tt, w') ->
  exists df,
    pd_read_csv (pd E) file_path "utf-8-sig" = Ok df
    /\ tables w' !! table_name = Some df
    /\ (forall other, other <> table_name -> tables w' !! other = tables w !! other)
    /\ tables w' = <[table_name := df]> (tables w)
    /\ to_sql_calls (events_of (load_dim_product_category E file_path table_name) w)
       = [EvToSql table_name df connection_string IfReplace false].
Proof.
  unfold events_of. rewrite load_run.
  destruct (create_engine_error E connection_string) as [e|]; [discriminate|].
  destruct (connect_error E connection_string) as [e|]; [discriminate|].
  destruct (pd_read_csv (pd E) file_path "utf-8-sig") as [df|e]; [|discriminate].
  destruct (to_sql_error E table_name df) as [e|]; [discriminate|].
  destruct (close_error E (next_conn w)) as [e|]; [discriminate|].
  intros [= <-]. exists df. cbn [tables snd trace]. rewrite drop_app_length.
  split; [done|]. split; [apply lookup_insert_eq|].
  split; [intros other Hne; by apply lookup_insert_ne|]. split; [done|].
  reflexivity.
Qed.

Lemma load_replaces_table_witness :
  exists df,
    pd_read_csv (pd env_ok) calcule_csv "utf-8-sig" = Ok df
    /\ tables (load_dim_product_category env_ok calcule_csv "calcule" stale_world).2
         !! "calcule" = Some df
    /\ (forall other, other <> "calcule" ->
          tables (load_dim_product_category env_ok calcule_csv "calcule" stale_world).2
            !! other = tables stale_world !! other)
    /\ tables (load_dim_product_category env_ok calcule_csv "calcule" stale_world).2
       = <["calcule" := df]> (tables stale_world)
    /\ to_sql_calls
         (events_of (load_dim_product_category env_ok calcule_csv "calcule") stale_world)
       = [EvToSql "calcule" df connection_string IfReplace false].
Proof.
  apply (load_replaces_table env_ok calcule_csv "calcule" stale_world).
  vm_compute. reflexivity.
Defined.

(** The table held [stale_df] before the load and holds [sample_df] after. *)
Example load_overwrites_stale_table :
  tables stale_world !! "calcule" = Some stale_df
  /\ tables (load_dim_product_category env_ok calcule_csv "calcule" stale_world).2
       !! "calcule" = Some sample_df.
Proof. split; vm_compute; reflexivity. Qed.

(** *** The connection *)

(** A load in which [read_csv] or [to_sql] raises ends with the connection
    that [engine.connect()] gave it still open, never having called
    [close]: [conn.close()] is the last statement of the [try] and no
    [finally] repeats it. *)
Lemma load_leaves_connection_open E file_path table_name w :
  create_engine_error E connection_string = None ->
  connect_error E connection_string = None ->
  (exists e, pd_read_csv (pd E) file_path "utf-8-sig" = Raised e)
  \/ (exists df e, pd_read_csv (pd E) file_path "utf-8-sig" = Ok df
                   /\ to_sql_error E table_name df = Some e) ->
  let w' := (load_dim_product_category E file_path table_name w).2 in
  (exists e, (load_dim_product_category E file_path table_name w).1 = Raised e)
  /\ EvConnect connection_string
       ∈ events_of (load_dim_product_category E file_path table_name) w
  /\ next_conn w ∈ open_conns w'
  /\ "close" ∉ library_calls (events_of (load_dim_product_category E file_path table_name) w).
Proof.
  intros Hce Hco Hfail. unfold events_of. cbv zeta. rewrite load_run, Hce, Hco.
  destruct Hfail as [[e ->]|(df & e & -> & ->)];
    cbn [fst snd next_conn open_conns trace]; rewrite drop_app_length;
    (split; [by eexists|]); (split; [right; left|]);
    (split; [apply elem_of_union_l; by apply elem_of_singleton|]);
    cbn; intros Hin;
    repeat (apply elem_of_cons in Hin as [Hin|Hin]; [discriminate Hin|]);
    by apply elem_of_nil in Hin.
Qed.

(** C4, at a failing input: the file is not there, [read_csv] raises, and
    the op ends having opened connection 0 and never closed it. *)
Theorem load_missing_file_leaks_connection :
  let r := load_dim_product_category env_missing_file calcule_csv "calcule" empty_world in
  r.1 = Raised (missing_file calcule_csv)
  /\ opened_during empty_world r.2 = [0]
  /\ elements (open_conns r.2) = [0]
  /\ library_calls (trace r.2) = ["create_engine"; "connect"; "read_csv"]
  /\ logged_errors (trace r.2) = [load_error_msg (missing_file calcule_csv)].
Proof. vm_compute. done. Qed.

(** ** The first error *)

(** The exception the load op ends with is the one of the first library
    call that raises, in program order. *)
Lemma load_raises_first_error E file_path table_name w :
  (load_dim_product_category E file_path table_name w).1 =
  match create_engine_error E connection_string with
  | Some e => Raised e
  | None =>
    match connect_error E connection_string with
    | Some e => Raised e
    | None =>
      match pd_read_csv (pd E) file_path "utf-8-sig" with
      | Raised e => Raised e
      | Ok df =>
        match to_sql_error E table_name df with
        | Some e => Raised e
        | None =>
          match close_error E (next_conn w) with
          | Some e => Raised e
          | None => Ok tt
          end
        end
      end
    end
  end.
Proof.
  rewrite load_run.
  destruct (create_engine_error E connection_string) as [e|]; [done|].
  destruct (connect_error E connection_string) as [e|]; [done|].
  destruct (pd_read_csv (pd E) file_path "utf-8-sig") as [df|e]; [|done].
  destruct (to_sql_error E table_name df) as [e|]; [done|].
  by destruct (close_error E (next_conn w)) as [e|].
Qed.

(** ** The connection string *)

Lemma load_first_event E file_path table_name w :
  head (events_of (load_dim_product_category E file_path table_name) w)
  = Some (EvCreateEngine connection_string).
Proof.
  unfold events_of. rewrite load_run.
  destruct (create_engine_error E connection_string) as [e|];
    [|destruct (connect_error E connection_string) as [e|];
      [|destruct (pd_read_csv (pd E) file_path "utf-8-sig") as [df|e];
        [destruct (to_sql_error E table_name df) as [e|];
          [|destruct (close_error E (next_conn w)) as [e|]]|]]];
    cbn [snd trace add_events]; by rewrite drop_app_length.
Qed.

(** C8: the load op builds one connection string, a constant that names the
    server [DESKTOP-EOHPBP3\PROJECT] and the database [health]; whatever the
    file path and the table name, the first thing the op does is to create
    the engine on it, and every database URL in its trace is that string; two
    calls on different inputs, environments and worlds start on the same
    target. *)
Theorem load_connection_string_constant E file_path table_name w :
  server_name = "DESKTOP-EOHPBP3\PROJECT"
  /\ database_name = "health"
  /\ connection_string
     = "mssql+pyodbc://DESKTOP-EOHPBP3\PROJECT/health?trusted_connection=yes&driver=ODBC+Driver+17+for+SQL+Server"
  /\ head (events_of (load_dim_product_category E file_path table_name) w)
     = Some (EvCreateEngine connection_string)
  /\ Forall (fun url => url = connection_string)
       (database_urls (events_of (load_dim_product_category E file_path table_name) w))
  /\ forall E' file_path' table_name' w',
       head (events_of (load_dim_product_category E' file_path' table_name') w')
       = head (events_of (load_dim_product_category E file_path table_name) w).
Proof.
  split; [done|]. split; [done|]. split; [done|].
  split; [apply load_first_event|]. split.
  - destruct (load_trace_extends E file_path table_name w)
      as (evs & Htr & _ & _ & Hurls & _).
    by rewrite (load_events_of _ _ _ _ _ Htr).
  - intros E' file_path' table_name' w'. by rewrite !load_first_event.
Qed.

(** ** The schedule *)

Lemma cron_fires_at_ten t :
  cron_fires "0 10 * * *" t
  = Some (bool_decide (minute t = 0) && bool_decide (hour t = 10)).
Proof.
  transitivity (Some (field_matches (Exactly 0) (minute t)
                      && field_matches (Exactly 10) (hour t)
                      && field_matches Any (day_of_month t)
                      && field_matches Any (month t)
                      && field_matches Any (day_of_week t))).
  - reflexivity.
  - cbn [field_matches]. by rewrite !andb_true_r.
Qed.

(** C7: the schedule runs the job [etl] on the cron string [0 10 * * *],
    which fires at the minute 10:00 of every day and at no other minute, in
    the timezone [US/Central], a constant of the definition; the run config
    is empty whatever the context of the tick. *)
Theorem etl_job_schedule_daily {context : Type} :
  cron_schedule (@etl_job_schedule context) = "0 10 * * *"
  /\ job (@etl_job_schedule context) = etl
  /\ execution_timezone (@etl_job_schedule context) = Some "US/Central"
  /\ (forall ctx : context, run_config_fn etl_job_schedule ctx = ∅)
  /\ forall t : CronTime,
       cron_fires (cron_schedule (@etl_job_schedule context)) t
       = Some (bool_decide (minute t = 0 /\ hour t = 10)).
Proof.
  split; [done|]. split; [done|]. split; [done|]. split; [done|].
  intros t. cbn [cron_schedule etl_job_schedule].
  rewrite cron_fires_at_ten. f_equal.
  destruct (decide (minute t = 0)) as [Hm|Hm], (decide (hour t = 10)) as [Hh|Hh].
  all: rewrite ?(bool_decide_eq_true_2 _ Hm), ?(bool_decide_eq_false_2 _ Hm),
         ?(bool_decide_eq_true_2 _ Hh), ?(bool_decide_eq_false_2 _ Hh); cbn.
  all: symmetry; first [apply bool_decide_eq_true_2; done
                       | apply bool_decide_eq_false_2; intros [? ?]; done].
Qed.

(** * Further properties of the ops and of a run *)

(** ** The trace of the extract op *)

(** The trace of a run of the extract op is exactly this: for each pair of
    the list, in order, one info record that names the file path and the
    table, then the output of the file path, then the output of the table
    name; with it, nothing of the world changes, and no library is
    called. *)
Theorem extract_trace (w : world) :
  events_of extract_dim_product_category w
  = flat_map (fun '(i, (file_path, table_name)) =>
                [ EvLogInfo ("Chargement des données à partir de " +:+ file_path
                             +:+ " pour la table " +:+ table_name);
                  EvYield (mkOutput file_path ("file_path_" +:+ str_of_nat i));
                  EvYield (mkOutput table_name ("table_name_" +:+ str_of_nat i)) ])
             (enumerate 1 files_to_load)
  /\ (extract_dim_product_category w).2
     = add_events w (events_of extract_dim_product_category w)
  /\ library_calls (events_of extract_dim_product_category w) = [].
Proof.
  rewrite extract_events_of, extract_run. by repeat split.
Qed.

(** ** What a load does to the database *)

(** A load that returns has read the file, and its final world is the
    initial one with the table replaced, its connection closed again, and
    six events added. *)
Lemma load_ok_inv E file_path table_name w w' :
  load_dim_product_category E file_path table_name w = (Ok tt, w') ->
  exists df,
    pd_read_csv (pd E) file_path "utf-8-sig" = Ok df
    /\ w' = mkWorld (<[table_name := df]> (tables w))
              (({[next_conn w]} ∪ open_conns w) ∖ {[next_conn w]}) (S (S (next_conn w)))
              (trace w ++ [EvCreateEngine connection_string; EvConnect connection_string;
                           EvReadCsv file_path "utf-8-sig";
                           EvToSql table_name df connection_string IfReplace false;
                           EvLogInfo (load_info_msg table_name);
                           EvClose (next_conn w)]).
Proof.
  rewrite load_run.
  destruct (create_engine_error E connection_string) as [e|]; [discriminate|].
  destruct (connect_error E connection_string) as [e|]; [discriminate|].
  destruct (pd_read_csv (pd E) file_path "utf-8-sig") as [df|e]; [|discriminate].
  destruct (to_sql_error E table_name df) as [e|]; [discriminate|].
  destruct (close_error E (next_conn w)) as [e|]; [discriminate|].
  intros [= <-]. by exists df.
Qed.

(** Whatever its outcome, a load leaves the tables as they were, or with its
    own table replaced by the dataframe read, or, when [to_sql] raises, with
    its own table in the state the failed call left it. *)
Lemma load_tables_cases E file_path table_name w :
  tables (load_dim_product_category E file_path table_name w).2 = tables w
  \/ (exists df,
        pd_read_csv (pd E) file_path "utf-8-sig" = Ok df
        /\ to_sql_error E table_name df = None
        /\ tables (load_dim_product_category E file_path table_name w).2
           = <[table_name := df]> (tables w))
  \/ (exists df,
        pd_read_csv (pd E) file_path "utf-8-sig" = Ok df
        /\ is_Some (to_sql_error E table_name df)
        /\ tables (load_dim_product_category E file_path table_name w).2
           = partial_alter (to_sql_failed_leaves E table_name df) table_name (tables w)).
Proof.
  rewrite load_run.
  destruct (create_engine_error E connection_string) as [e|]; [by left|].
  destruct (connect_error E connection_string) as [e|]; [by left|].
  destruct (pd_read_csv (pd E) file_path "utf-8-sig") as [df|e]; [|by left].
  destruct (to_sql_error E table_name df) as [e|] eqn:Hwrite.
  - right. right. exists df. by repeat split.
  - destruct (close_error E (next_conn w)) as [e|]; right; left; exists df;
      by repeat split.
Qed.

(** A load, whether it returns or raises, changes no table but the one it
    was given. *)
Theorem load_touches_only_its_table E file_path table_name w other :
  other <> table_name ->
  tables (load_dim_product_category E file_path table_name w).2 !! other
  = tables w !! other.
Proof.
  intros Hne.
  destruct (load_tables_cases E file_path table_name w)
    as [->|[(df & _ & _ & ->)|(df & _ & _ & ->)]]; [done| |].
  - by apply lookup_insert_ne.
  - by apply lookup_partial_alter_ne.
Qed.

Lemma load_touches_only_its_table_witness :
  tables (load_dim_product_category env_ok stastique_csv "stastique" stale_world).2
    !! "calcule"
  = tables stale_world !! "calcule".
Proof.
  apply (load_touches_only_its_table env_ok stastique_csv "stastique" stale_world "calcule").
  discriminate.
Defined.

(** The op reads before it writes: a load that raises without having called
    [to_sql], that is in [create_engine], [connect] or [read_csv], leaves
    every table as it was, the one it was to replace too, and logs one error
    record and no success record. *)
Theorem load_failure_before_write_keeps_tables E file_path table_name w e :
  (load_dim_product_category E file_path table_name w).1 = Raised e ->
  "to_sql" ∉ library_calls (events_of (load_dim_product_category E file_path table_name) w) ->
  tables (load_dim_product_category E file_path table_name w).2 = tables w
  /\ logged_errors (events_of (load_dim_product_category E file_path table_name) w)
     = [load_error_msg e]
  /\ EvLogInfo (load_info_msg table_name)
       ∉ events_of (load_dim_product_category E file_path table_name) w.
Proof.
  unfold events_of. rewrite load_run.
  destruct (create_engine_error E connection_string) as [e1|];
    [|destruct (connect_error E connection_string) as [e1|];
      [|destruct (pd_read_csv (pd E) file_path "utf-8-sig") as [df|e1];
        [destruct (to_sql_error E table_name df) as [e1|];
          [|destruct (close_error E (next_conn w)) as [e1|]]|]]];
    cbn [fst snd trace add_events tables]; rewrite drop_app_length;
    intros Hout Hwrite; try discriminate Hout.
  3,4: exfalso; apply Hwrite; cbn; do 3 right; left.
  all: injection Hout as ->; (split; [done|]); (split; [done|]);
       intros Hin;
       repeat (apply elem_of_cons in Hin as [Hin|Hin]; [discriminate Hin|]);
       by apply elem_of_nil in Hin.
Qed.

Lemma load_failure_before_write_keeps_tables_witness :
  tables (load_dim_product_category env_missing_file calcule_csv "calcule" stale_world).2
  = tables stale_world
  /\ logged_errors
       (events_of (load_dim_product_category env_missing_file calcule_csv "calcule")
          stale_world)
     = [load_error_msg (missing_file calcule_csv)]
  /\ EvLogInfo (load_info_msg "calcule")
       ∉ events_of (load_dim_product_category env_missing_file calcule_csv "calcule")
           stale_world.
Proof.
  apply (load_failure_before_write_keeps_tables env_missing_file calcule_csv "calcule"
           stale_world (missing_file calcule_csv)).
  - vm_compute. reflexivity.
  - apply (bool_decide_unpack _). vm_compute. reflexivity.
Defined.

(** When everything works but [conn.close()] raises, the op raises that
    exception although the table has been replaced: [close] comes after the
    write and the success record, so the trace holds the success record and
    then the error record. *)
Theorem load_close_failure_after_write E file_path table_name w df e :
  create_engine_error E connection_string = None ->
  connect_error E connection_string = None ->
  pd_read_csv (pd E) file_path "utf-8-sig" = Ok df ->
  to_sql_error E table_name df = None ->
  close_error E (next_conn w) = Some e ->
  (load_dim_product_category E file_path table_name w).1 = Raised e
  /\ tables (load_dim_product_category E file_path table_name w).2 !! table_name
     = Some df
  /\ EvLogInfo (load_info_msg table_name)
       ∈ events_of (load_dim_product_category E file_path table_name) w
  /\ logged_errors (events_of (load_dim_product_category E file_path table_name) w)
     = [load_error_msg e]
  /\ last (events_of (load_dim_product_category E file_path table_name) w)
     = Some (EvLogError (load_error_msg e)).
Proof.
  intros Hce Hco Hrd Hts Hcl. unfold events_of.
  rewrite load_run, Hce, Hco, Hrd, Hts, Hcl.
  cbn [fst snd trace tables open_conns]. rewrite drop_app_length.
  split; [done|]. split; [apply lookup_insert_eq|].
  split; [do 4 right; left|]. by split.
Qed.

Lemma load_close_failure_after_write_witness :
  (load_dim_product_category env_close_fails calcule_csv "calcule" stale_world).1
  = Raised close_failure
  /\ tables (load_dim_product_category env_close_fails calcule_csv "calcule" stale_world).2
       !! "calcule" = Some sample_df
  /\ EvLogInfo (load_info_msg "calcule")
       ∈ events_of (load_dim_product_category env_close_fails calcule_csv "calcule")
           stale_world
  /\ logged_errors
       (events_of (load_dim_product_category env_close_fails calcule_csv "calcule")
          stale_world)
     = [load_error_msg close_failure]
  /\ last (events_of (load_dim_product_category env_close_fails calcule_csv "calcule")
            stale_world)
     = Some (EvLogError (load_error_msg close_failure)).
Proof.
  apply (load_close_failure_after_write env_close_fails calcule_csv "calcule"
           stale_world sample_df close_failure); reflexivity.
Defined.

(** The success record is logged only after the write: if it is in the
    trace of a load, the table holds the dataframe that was read, whether the
    op then returns or raises. *)
Theorem load_success_record_means_written E file_path table_name w :
  EvLogInfo (load_info_msg table_name)
    ∈ events_of (load_dim_product_category E file_path table_name) w ->
  exists df,
    pd_read_csv (pd E) file_path "utf-8-sig" = Ok df
    /\ tables (load_dim_product_category E file_path table_name w).2 !! table_name
       = Some df.
Proof.
  unfold events_of. rewrite load_run.
  destruct (create_engine_error E connection_string) as [e|];
    [|destruct (connect_error E connection_string) as [e|];
      [|destruct (pd_read_csv (pd E) file_path "utf-8-sig") as [df|e];
        [destruct (to_sql_error E table_name df) as [e|];
          [|destruct (close_error E (next_conn w)) as [e|]]|]]];
    cbn [snd trace add_events tables]; rewrite drop_app_length; intros Hin.
  1-3,6: repeat (apply elem_of_cons in Hin as [Hin|Hin]; [discriminate Hin|]);
         by apply elem_of_nil in Hin.
  all: exists df; split; [done|]; apply lookup_insert_eq.
Qed.

Lemma load_success_record_means_written_witness :
  exists df,
    pd_read_csv (pd env_ok) calcule_csv "utf-8-sig" = Ok df
    /\ tables (load_dim_product_category env_ok calcule_csv "calcule" stale_world).2
         !! "calcule" = Some df.
Proof.
  apply (load_success_record_means_written env_ok calcule_csv "calcule" stale_world).
  apply (bool_decide_unpack _). vm_compute. reflexivity.
Defined.

(** Loading the same file into the same table twice in a row leaves the
    database as the first load left it. *)
Theorem load_twice_same_tables E file_path table_name w w1 w2 :
  load_dim_product_category E file_path table_name w = (Ok tt, w1) ->
  load_dim_product_category E file_path table_name w1 = (Ok tt, w2) ->
  tables w2 = tables w1.
Proof.
  intros H1 H2.
  apply load_ok_inv in H1 as (df1 & Hdf1 & ->).
  apply load_ok_inv in H2 as (df2 & Hdf2 & ->).
  rewrite Hdf1 in Hdf2. injection Hdf2 as <-.
  cbn [tables]. apply insert_insert_eq.
Qed.

Lemma load_twice_same_tables_witness :
  tables (load_dim_product_category env_ok calcule_csv "calcule"
            (load_dim_product_category env_ok calcule_csv "calcule" stale_world).2).2
  = tables (load_dim_product_category env_ok calcule_csv "calcule" stale_world).2.
Proof.
  apply (load_twice_same_tables env_ok calcule_csv "calcule" stale_world);
    vm_compute; reflexivity.
Defined.

(** ** What a run does to the database *)

(** Loads that all return, on pairwise distinct tables: each table of the
    list holds the dataframe read from its file, and the tables outside the
    list are as they were. *)
Lemma run_loads_ok_tables carry_on E calls : forall w w',
  NoDup calls.*2 ->
  run_loads carry_on E calls w = (Ok tt, w') ->
  (forall file_path table_name, (file_path, table_name) ∈ calls ->
     exists df, pd_read_csv (pd E) file_path "utf-8-sig" = Ok df
                /\ tables w' !! table_name = Some df)
  /\ (forall t, t ∉ calls.*2 -> tables w' !! t = tables w !! t).
Proof.
  induction calls as [|[fp tn] calls IH]; intros w w' Hnd Hrun.
  - injection Hrun as <-. split; [|done].
    intros file_path table_name Hin. by apply elem_of_nil in Hin.
  - unfold run_loads in Hrun. cbn [map run_steps] in Hrun.
    fold (run_loads carry_on E calls) in Hrun.
    destruct (load_dim_product_category E fp tn w) as [[[]|e] w1] eqn:Hload;
      [|discriminate Hrun].
    apply load_ok_inv in Hload as (df & Hdf & ->).
    cbn [fmap list_fmap snd] in Hnd. apply NoDup_cons in Hnd as [Hfresh Hnd].
    destruct (IH _ _ Hnd Hrun) as [Hin Hout]. cbn [tables] in Hout. split.
    + intros file_path table_name Hmem.
      apply elem_of_cons in Hmem as [[= -> ->]|Hmem]; [|by apply Hin].
      exists df. split; [done|]. rewrite (Hout _ Hfresh). apply lookup_insert_eq.
    + intros t Ht. cbn [fmap list_fmap snd] in Ht.
      apply not_elem_of_cons in Ht as [Hne Ht].
      rewrite (Hout _ Ht). by apply lookup_insert_ne.
Qed.

(** A run of the job that ends normally leaves each of the eleven tables
    holding exactly the dataframe read from its file, and every other table
    of the database as it was. *)
Theorem run_etl_loads_every_table carry_on E w w' :
  run_etl carry_on E w = (Ok tt, w') ->
  (forall file_path table_name, (file_path, table_name) ∈ files_to_load ->
     exists df, pd_read_csv (pd E) file_path "utf-8-sig" = Ok df
                /\ tables w' !! table_name = Some df)
  /\ (forall t, t ∉ files_to_load.*2 -> tables w' !! t = tables w !! t).
Proof.
  unfold run_etl. rewrite load_calls_run, extract_run. intros Hrun.
  assert (Hperm := in_step_order_Permutation "load_dim_product_category" files_to_load).
  apply run_loads_ok_tables in Hrun as [Hin Hout].
  - split.
    + intros file_path table_name Hmem. apply Hin. by rewrite Hperm.
    + intros t Ht. apply Hout. by rewrite Hperm.
  - rewrite Hperm. apply (bool_decide_unpack _). by vm_compute.
Qed.

Lemma run_etl_loads_every_table_witness :
  (forall file_path table_name, (file_path, table_name) ∈ files_to_load ->
     exists df, pd_read_csv (pd env_ok) file_path "utf-8-sig" = Ok df
                /\ tables (run_etl false env_ok stale_world).2 !! table_name = Some df)
  /\ (forall t, t ∉ files_to_load.*2 ->
        tables (run_etl false env_ok stale_world).2 !! t = tables stale_world !! t).
Proof.
  apply (run_etl_loads_every_table false env_ok stale_world). vm_compute. reflexivity.
Defined.

(** The order in which the loads run does not matter to the database: two
    runs of the same calls in different orders, both ending normally, leave
    the same tables. *)
Theorem run_loads_order_irrelevant carry_on E calls calls' w w1 w2 :
  calls ≡ₚ calls' ->
  NoDup calls.*2 ->
  run_loads carry_on E calls w = (Ok tt, w1) ->
  run_loads carry_on E calls' w = (Ok tt, w2) ->
  tables w1 = tables w2.
Proof.
  intros Hperm Hnd Hrun1 Hrun2.
  assert (Hnd' : NoDup calls'.*2) by (by rewrite <- Hperm).
  destruct (run_loads_ok_tables _ _ _ _ _ Hnd Hrun1) as [Hin1 Hout1].
  destruct (run_loads_ok_tables _ _ _ _ _ Hnd' Hrun2) as [Hin2 Hout2].
  apply map_eq. intros t.
  destruct (decide (t ∈ calls.*2)) as [Ht|Ht].
  - apply list_elem_of_fmap in Ht as ([fp tn] & -> & Hmem). cbn [snd].
    destruct (Hin1 _ _ Hmem) as (df1 & Hdf1 & ->).
    rewrite Hperm in Hmem.
    destruct (Hin2 _ _ Hmem) as (df2 & Hdf2 & ->).
    congruence.
  - rewrite (Hout1 _ Ht). symmetry. apply Hout2. by rewrite <- Hperm.
Qed.

Lemma run_loads_order_irrelevant_witness :
  tables (run_loads false env_ok
            [(calcule_csv, "calcule"); (stastique_csv, "stastique")] stale_world).2
  = tables (run_loads false env_ok
              [(stastique_csv, "stastique"); (calcule_csv, "calcule")] stale_world).2.
Proof.
  apply (run_loads_order_irrelevant false env_ok
           [(calcule_csv, "calcule"); (stastique_csv, "stastique")]
           [(stastique_csv, "stastique"); (calcule_csv, "calcule")] stale_world).
  - apply perm_swap.
  - apply (bool_decide_unpack _). vm_compute. reflexivity.
  - vm_compute. reflexivity.
  - vm_compute. reflexivity.
Defined.

(** * Tags *)

Lemma startswith_app (p s : Tags.pystr) : Tags.startswith (p ++ s) p = true.
Proof.
  induction p as [|c p IH]; [done|]. cbn.
  by rewrite bool_decide_eq_true_2, IH.
Qed.

Lemma startswith_prefix (s p : Tags.pystr) :
  Tags.startswith s p = true <-> exists r, s = p ++ r.
Proof.
  split.
  - revert s. induction p as [|c p IH]; intros s Hs; [by exists s|].
    destruct s as [|d s]; [discriminate Hs|]. cbn in Hs.
    apply andb_true_iff in Hs as [Hc Hs]. apply bool_decide_eq_true in Hc as ->.
    destruct (IH _ Hs) as [r ->]. by exists r.
  - intros [r ->]. apply startswith_app.
Qed.

(** A tag with the hidden prefix does not have the system prefix: their
    first characters differ. *)
Lemma hidden_not_system (tag : Tags.pystr) :
  Tags.startswith tag Tags.HIDDEN_TAG_PREFIX = true ->
  Tags.startswith tag Tags.SYSTEM_TAG_PREFIX = false.
Proof.
  destruct tag as [|c tag]; [done|]. cbn.
  destruct (decide (46%N = c)) as [<-|Hne]; [done|].
  by rewrite (bool_decide_eq_false_2 _ Hne).
Qed.

(** The tag of a partition dimension gives the dimension back, and is a
    system tag, whatever the dimension name (the empty name too). *)
Theorem partition_tag_round_trip (dimension_name : Tags.pystr) :
  Tags.get_dimension_from_partition_tag
    (Tags.get_multidimensional_partition_tag dimension_name) = dimension_name
  /\ Tags.get_tag_type (Tags.get_multidimensional_partition_tag dimension_name)
     = Tags.SYSTEM.
Proof.
  split.
  - unfold Tags.get_dimension_from_partition_tag, Tags.get_multidimensional_partition_tag.
    apply drop_app_length.
  - reflexivity.
Qed.

(** On a tag that starts with the partition prefix, taking the dimension and
    building the tag again gives the tag back. *)
Theorem partition_tag_rebuild (tag : Tags.pystr) :
  Tags.startswith tag Tags.MULTIDIMENSIONAL_PARTITION_PREFIX = true ->
  Tags.get_multidimensional_partition_tag (Tags.get_dimension_from_partition_tag tag)
  = tag.
Proof.
  intros Hp. apply startswith_prefix in Hp as [r ->].
  unfold Tags.get_dimension_from_partition_tag, Tags.get_multidimensional_partition_tag.
  by rewrite drop_app_length.
Qed.

Lemma partition_tag_rebuild_witness :
  Tags.get_multidimensional_partition_tag
    (Tags.get_dimension_from_partition_tag (Tags.py "dagster/partition/date"))
  = Tags.py "dagster/partition/date".
Proof.
  apply (partition_tag_rebuild (Tags.py "dagster/partition/date")). reflexivity.
Defined.

Lemma get_tag_type_by_prefix_aux (tag : Tags.pystr) :
  Tags.get_tag_type tag = Tags.SYSTEM
  <-> Tags.startswith tag Tags.SYSTEM_TAG_PREFIX = true.
Proof.
  unfold Tags.get_tag_type.
  destruct (Tags.startswith tag Tags.SYSTEM_TAG_PREFIX); [done|].
  by destruct (Tags.startswith tag Tags.HIDDEN_TAG_PREFIX).
Qed.

(** The type of a tag is decided by its prefix alone, and the three types
    exclude one another: hidden exactly with the prefix [.dagster/], system
    exactly with [dagster/], user provided exactly with neither. *)
Theorem get_tag_type_by_prefix (tag : Tags.pystr) :
  (Tags.get_tag_type tag = Tags.SYSTEM
   <-> Tags.startswith tag Tags.SYSTEM_TAG_PREFIX = true)
  /\ (Tags.get_tag_type tag = Tags.HIDDEN
      <-> Tags.startswith tag Tags.HIDDEN_TAG_PREFIX = true)
  /\ (Tags.get_tag_type tag = Tags.USER_PROVIDED
      <-> Tags.startswith tag Tags.SYSTEM_TAG_PREFIX = false
          /\ Tags.startswith tag Tags.HIDDEN_TAG_PREFIX = false).
Proof.
  unfold Tags.get_tag_type.
  destruct (Tags.startswith tag Tags.HIDDEN_TAG_PREFIX) eqn:Hh.
  - rewrite (hidden_not_system _ Hh). repeat split; try done. by intros [_ ?].
  - destruct (Tags.startswith tag Tags.SYSTEM_TAG_PREFIX); repeat split; try done.
    by intros [? _].
Qed.

Lemma check_reserved_keys_ok (keys : list Tags.pystr) :
  Tags.check_reserved_keys keys = inr tt
  <-> forall tag, tag ∈ keys ->
        tag ∈ Tags.USER_EDITABLE_SYSTEM_TAGS
        \/ Tags.startswith tag Tags.SYSTEM_TAG_PREFIX = false.
Proof.
  induction keys as [|tag keys IH]; cbn [Tags.check_reserved_keys].
  - split; [|done]. intros _ tag Hin. by apply elem_of_nil in Hin.
  - destruct (decide (tag ∈ Tags.USER_EDITABLE_SYSTEM_TAGS)) as [Hed|Hed].
    + rewrite bool_decide_eq_false_2 by (by intros ?). rewrite IH. split.
      * intros H t Ht. apply elem_of_cons in Ht as [->|Ht]; [by left|by apply H].
      * intros H t Ht. apply H. by right.
    + rewrite bool_decide_eq_true_2 by done.
      destruct (Tags.startswith tag Tags.SYSTEM_TAG_PREFIX) eqn:Hs;
        cbn [negb Tags.invariant].
      * split; [discriminate|]. intros H.
        destruct (H tag) as [?|?]; [by left|done|congruence].
      * rewrite IH. split.
        -- intros H t Ht. apply elem_of_cons in Ht as [->|Ht]; [by right|by apply H].
        -- intros H t Ht. apply H. by right.
Qed.

(** [check_reserved_tags] accepts a dict exactly when each of its keys is one
    of the six user-editable system tags or is not a system tag; hidden tags
    and the values are not looked at. *)
Theorem check_reserved_tags_accepts (items : list (Tags.pystr * Tags.pystr)) :
  Tags.check_reserved_tags (Some items) = inr tt
  <-> forall tag, tag ∈ items.*1 ->
        tag ∈ Tags.USER_EDITABLE_SYSTEM_TAGS \/ Tags.get_tag_type tag <> Tags.SYSTEM.
Proof.
  cbn [Tags.check_reserved_tags]. rewrite check_reserved_keys_ok.
  split; intros H tag Ht; (destruct (H tag Ht) as [?|Hs]; [by left|right]).
  - intros Hty. apply (get_tag_type_by_prefix_aux tag) in Hty. congruence.
  - destruct (Tags.startswith tag Tags.SYSTEM_TAG_PREFIX) eqn:Hp; [|done].
    exfalso. apply Hs. by apply (get_tag_type_by_prefix_aux tag).
Qed.

Lemma invariant_failed_desc (p tag : Tags.pystr) :
  p <> [] ->
  Tags.invariant false (Some (p ++ tag))
  = inl (Tags.CheckError (Tags.py "Invariant failed. Description: " ++ p ++ tag)).
Proof. by destruct p. Qed.

(** When a key is a system tag outside the six user-editable ones, and the
    keys before it are acceptable, [check_reserved_tags] raises a
    [CheckError] that names that key: the first offending key in the order
    of the dict. *)
Theorem check_reserved_tags_rejects_first
    (items : list (Tags.pystr * Tags.pystr)) (before : list Tags.pystr)
    (tag : Tags.pystr) (after : list Tags.pystr) :
  items.*1 = before ++ tag :: after ->
  (forall t, t ∈ before ->
     t ∈ Tags.USER_EDITABLE_SYSTEM_TAGS
     \/ Tags.startswith t Tags.SYSTEM_TAG_PREFIX = false) ->
  tag ∉ Tags.USER_EDITABLE_SYSTEM_TAGS ->
  Tags.startswith tag Tags.SYSTEM_TAG_PREFIX = true ->
  Tags.check_reserved_tags (Some items)
  = inl (Tags.CheckError
           (Tags.py "Invariant failed. Description: Attempted to set tag with reserved system prefix: "
            ++ tag)).
Proof.
  intros Hkeys Hbefore Hed Hsys. cbn [Tags.check_reserved_tags].
  rewrite Hkeys. clear items Hkeys.
  induction before as [|t before IH]; cbn [app Tags.check_reserved_keys].
  - rewrite bool_decide_eq_true_2 by done. rewrite Hsys. cbn [negb].
    by rewrite invariant_failed_desc.
  - assert (Ht : t ∈ Tags.USER_EDITABLE_SYSTEM_TAGS
                 \/ Tags.startswith t Tags.SYSTEM_TAG_PREFIX = false)
      by (apply Hbefore; by left).
    assert (Hrest : forall t', t' ∈ before ->
              t' ∈ Tags.USER_EDITABLE_SYSTEM_TAGS
              \/ Tags.startswith t' Tags.SYSTEM_TAG_PREFIX = false)
      by (intros t' Ht'; apply Hbefore; by right).
    destruct (decide (t ∈ Tags.USER_EDITABLE_SYSTEM_TAGS)) as [Hin|Hin].
    + rewrite bool_decide_eq_false_2 by (by intros ?). by apply IH.
    + rewrite bool_decide_eq_true_2 by done.
      destruct Ht as [Ht|Ht]; [done|]. rewrite Ht. cbn [negb Tags.invariant].
      by apply IH.
Qed.

Lemma check_reserved_tags_rejects_first_witness :
  Tags.check_reserved_tags
    (Some [ (Tags.py "team", Tags.py "data");
            (Tags.PRIORITY_TAG, Tags.py "5");
            (Tags.py "dagster/schedule_name", Tags.py "etl_job_schedule");
            (Tags.py "dagster/backfill", Tags.py "x") ])
  = inl (Tags.CheckError
           (Tags.py "Invariant failed. Description: Attempted to set tag with reserved system prefix: "
            ++ Tags.py "dagster/schedule_name")).
Proof.
  apply (check_reserved_tags_rejects_first _
           [Tags.py "team"; Tags.PRIORITY_TAG] (Tags.py "dagster/schedule_name")
           [Tags.py "dagster/backfill"]).
  - reflexivity.
  - intros t Ht. apply elem_of_cons in Ht as [->|Ht]; [by right|].
    apply elem_of_cons in Ht as [->|Ht]; [left; by left|].
    by apply elem_of_nil in Ht.
  - apply (bool_decide_unpack _). vm_compute. reflexivity.
  - reflexivity.
Defined.

(** * The load op on the error path, at a sample input *)

Lemma load_leaves_connection_open_witness :
  let w' := (load_dim_product_category env_missing_file calcule_csv "calcule"
               empty_world).2 in
  (exists e, (load_dim_product_category env_missing_file calcule_csv "calcule"
                empty_world).1 = Raised e)
  /\ EvConnect connection_string
       ∈ events_of (load_dim_product_category env_missing_file calcule_csv "calcule")
           empty_world
  /\ next_conn empty_world ∈ open_conns w'
  /\ "close" ∉ library_calls
                 (events_of (load_dim_product_category env_missing_file calcule_csv
                               "calcule") empty_world).
Proof.
  apply (load_leaves_connection_open env_missing_file calcule_csv "calcule" empty_world).
  - reflexivity.
  - reflexivity.
  - left. by eexists.
Defined.

(** * The ops in any surroundings *)

Lemma call_run ev raises w :
  call ev raises w
  = (match raises with Some e => Raised e | None => Ok tt end, add_events w [ev]).
Proof. unfold call, emit, raise, mbind, M_bind, mret, M_ret. by destruct raises. Qed.


(** ** The extract op *)

(** One turn of the loop: the events it adds are the first of the three it
    is to add, as far as the calls returned. *)
Lemma extract_step_in_run ctx i p w :
  exists evs,
    (extract_step_in ctx (i, p) w).2 = add_events w evs
    /\ evs `prefix_of` pair_events i p
    /\ ((extract_step_in ctx (i, p) w).1 = Ok tt -> evs = pair_events i p)
    /\ ((forall msg, EvLogInfo msg ∈ pair_events i p -> log_info_raises ctx msg = None) ->
        (forall o, EvYield o ∈ pair_events i p -> thrown_at_yield ctx o = None) ->
        (extract_step_in ctx (i, p) w).1 = Ok tt).
Proof.
  destruct p as [file_path table_name].
  unfold extract_step_in, log_info_in, yield_in, mbind, M_bind, pair_events.
  cbn [fst snd]. rewrite call_run.
  destruct (log_info_raises ctx (extract_info_msg file_path table_name)) as [e|] eqn:Hlog.
  { eexists. split; [done|]. split; [by eexists|]. split; [discriminate|].
    intros Hinfo _. rewrite Hinfo in Hlog; [discriminate|left]. }
  rewrite call_run, add_events_app.
  destruct (thrown_at_yield ctx (mkOutput file_path ("file_path_" +:+ str_of_nat i)))
    as [e|] eqn:Hy1.
  { eexists. split; [done|]. split; [by eexists|]. split; [discriminate|].
    intros _ Hyield. rewrite Hyield in Hy1; [discriminate|right; left]. }
  rewrite call_run, add_events_app.
  destruct (thrown_at_yield ctx (mkOutput table_name ("table_name_" +:+ str_of_nat i)))
    as [e|] eqn:Hy2.
  { eexists. split; [done|]. split; [by eexists|]. split; [discriminate|].
    intros _ Hyield. rewrite Hyield in Hy2; [discriminate|do 2 right; left]. }
  eexists. split; [done|]. split; [by eexists|]. by split.
Qed.

(** The loop: what it adds is a beginning of what the loop is to add, all
    of it when the loop returns; it returns when every call it makes does. *)
Lemma extract_loop_in_run ctx pairs : forall i w,
  exists evs,
    (for_each (enumerate i pairs) (extract_step_in ctx) w).2 = add_events w evs
    /\ evs `prefix_of` extract_events i pairs
    /\ ((for_each (enumerate i pairs) (extract_step_in ctx) w).1 = Ok tt ->
        evs = extract_events i pairs)
    /\ ((forall msg, EvLogInfo msg ∈ extract_events i pairs ->
           log_info_raises ctx msg = None) ->
        (forall o, EvYield o ∈ extract_events i pairs ->
           thrown_at_yield ctx o = None) ->
        (for_each (enumerate i pairs) (extract_step_in ctx) w).1 = Ok tt).
Proof.
  induction pairs as [|p pairs IH]; intros i w; cbn [for_each enumerate extract_events].
  - exists []. rewrite add_events_nil. by repeat split.
  - unfold mbind, M_bind.
    destruct (extract_step_in_run ctx i p w) as (evs1 & Hw1 & Hpre1 & Hall1 & Hok1).
    destruct (extract_step_in ctx (i, p) w) as [[[]|e] w1]; cbn [fst snd] in *.
    + subst w1. rewrite (Hall1 eq_refl).
      destruct (IH (S i) (add_events w (pair_events i p)))
        as (evs2 & Hw2 & Hpre2 & Hall2 & Hok2).
      exists (pair_events i p ++ evs2). rewrite Hw2, add_events_app.
      split; [done|]. split; [by apply prefix_app|]. split.
      * intros Hok. by rewrite (Hall2 Hok).
      * intros Hinfo Hyield. apply Hok2.
        -- intros msg Hin. apply Hinfo. apply elem_of_app. by right.
        -- intros o Hin. apply Hyield. apply elem_of_app. by right.
    + exists evs1. split; [done|]. split.
      * by apply prefix_app_r.
      * split; [discriminate|]. intros Hinfo Hyield.
        assert (Hcontra : Raised e = Ok tt); [|discriminate Hcontra].
        apply Hok1.
        -- intros msg Hin. apply Hinfo. apply elem_of_app. by left.
        -- intros o Hin. apply Hyield. apply elem_of_app. by left.
Qed.


(** Under the surroundings the framework gives, the ops in any surroundings
    are the ops under their own names. *)
Lemma extract_in_framework w :
  extract_dim_product_category_in framework_context w = extract_dim_product_category w.
Proof.
  unfold extract_dim_product_category_in, try_except, extract_body_in.
  destruct (extract_loop_in_run framework_context files_to_load 1 w)
    as (evs & Hw & _ & Hall & Hok).
  assert (Hres : (for_each (enumerate 1 files_to_load)
                    (extract_step_in framework_context) w).1 = Ok tt)
    by (by apply Hok).
  destruct (for_each (enumerate 1 files_to_load) (extract_step_in framework_context) w)
    as [[[]|e] w'] eqn:Hrun; cbn [fst snd] in *; [|discriminate Hres].
  rewrite extract_run, Hw. by rewrite (Hall eq_refl).
Qed.

Lemma load_in_framework E file_path table_name w :
  load_dim_product_category_in framework_context E file_path table_name w
  = load_dim_product_category E file_path table_name w.
Proof.
  unfold load_dim_product_category_in, load_dim_product_category, try_except.
  unfold load_body_in, load_body, load_handler_in, load_handler.
  unfold log_info_in, log_error_in, call, log_info, log_error.
  unfold create_engine, engine_connect, read_csv, to_sql, conn_close.
  unfold emit, raise, mbind, M_bind, mret, M_ret, add_events.
  cbn [log_info_raises log_error_raises framework_context].
  destruct (create_engine_error E connection_string) as [e|]; [done|].
  world_simpl.
  destruct (connect_error E connection_string) as [e|]; [done|].
  world_simpl.
  destruct (pd_read_csv (pd E) file_path "utf-8-sig") as [df|e]; [|done].
  world_simpl.
  destruct (to_sql_error E table_name df) as [e|]; [done|].
  destruct (tables w !! table_name) as [old|];
    (world_simpl; by destruct (close_error E (next_conn w)) as [e|]).
Qed.




(** ** The load op *)



(** ** A run in which an op raises *)




